(** * SukoonMusicPlayer automation scripts: the task worker and the QA report generator

    A shallow embedding of [ai_worker.py] (the folder-based task queue with
    its build-and-fix retry loop) and of [qa_agent.py] (the release
    checklist report), with the properties of the specification stated and
    proved about them.

    Modelling conventions.
    - A Python [str] is a [string]; one element stands for one character.
    - The four queue directories are finite maps from file names to file
      data.  They hold regular files only, and nothing but the worker
      renames files in them while it runs (the external agent and the build
      script leave [ai_tasks/] alone).
    - A file has one spelling of its name throughout the store.  How the
      platform folds case when it matches and compares names is the
      [normcase] of the [environment]: the name itself on POSIX, its
      lower-case form on Windows.
    - The external processes are an [environment]: the exit status of the
      n-th agent call, which may depend on the prompt it is given, and the
      exit status and captured output of the n-th build.
    - A computation is a function from the [world] to an [outcome] and a new
      world.  A Python exception is the outcome [Raise]; there is no
      [try]/[except] in the scripts, so an exception ends [main_loop].
    - Observable effects (renames, agent calls, builds, sleeps) are appended
      to the [trace] of the world.  Console messages are not modelled. *)

From Stdlib Require Import ZArith String Ascii List Lia Bool.
From stdpp Require Import base option list gmap strings fin_maps sorting.

Local Open Scope string_scope.
Local Open Scope Z_scope.

#[local] Arguments Stdlib.Strings.String.append !_ _ / : simpl nomatch.

(** ** Python strings *)

Module PyStr.

Definition length (s : string) : nat := Stdlib.Strings.String.length s.

(** [drop n s] is [s] without its first [n] characters. *)
Fixpoint drop (n : nat) (s : string) : string :=
  match n, s with
  | O, _ => s
  | S n', EmptyString => EmptyString
  | S n', String _ rest => drop n' rest
  end.

(** [take n s] is the first [n] characters of [s]. *)
Fixpoint take (n : nat) (s : string) : string :=
  match n, s with
  | O, _ => EmptyString
  | S n', EmptyString => EmptyString
  | S n', String c rest => String c (take n' rest)
  end.

(** [s[start:]]: a negative [start] counts from the end, and an index
    outside the string is clamped to it. *)
Definition slice_from (start : Z) (s : string) : string :=
  let len := Z.of_nat (length s) in
  let i := if start <? 0 then Z.max 0 (start + len) else Z.min start len in
  drop (Z.to_nat i) s.

(** [str.endswith] *)
Definition endswith (s suffix : string) : bool :=
  String.eqb (drop (length s - length suffix) s) suffix
  && (length suffix <=? length s)%nat.

(** [str.lower] on the letters A to Z. *)
Definition lower_char (c : ascii) : ascii :=
  let n := nat_of_ascii c in
  if ((65 <=? n) && (n <=? 90))%nat then ascii_of_nat (n + 32) else c.

Fixpoint lower (s : string) : string :=
  match s with
  | EmptyString => EmptyString
  | String c rest => String (lower_char c) (lower rest)
  end.

(** [s1 <= s2] on [str]: lexicographic on the characters. *)
Definition le (s1 s2 : string) : Prop :=
  Stdlib.Strings.String.leb s1 s2 = true.

End PyStr.

(** ** The task store *)

(** What [read_text(encoding="utf-8")] makes of a file: its text, or a
    decoding error for bytes that are not UTF-8. *)
Inductive file_data : Type :=
| Utf8 (text : string)
| Garbled.

Inductive queue_dir : Type :=
| PENDING_DIR
| IN_PROGRESS_DIR
| DONE_DIR
| FAILED_DIR.

Global Instance queue_dir_eq_dec : EqDecision queue_dir.
Proof. solve_decision. Defined.

Global Instance file_data_eq_dec : EqDecision file_data.
Proof. solve_decision. Defined.

(** A [Path] below [TASKS_ROOT]: [parent / name]. *)
Record path : Type := Path { parent : queue_dir; name : string }.

Global Instance path_eq_dec : EqDecision path.
Proof. solve_decision. Defined.

Record store : Type := Store {
  pending_files : gmap string file_data;
  in_progress_files : gmap string file_data;
  done_files : gmap string file_data;
  failed_files : gmap string file_data
}.

Definition listing (st : store) (d : queue_dir) : gmap string file_data :=
  match d with
  | PENDING_DIR => pending_files st
  | IN_PROGRESS_DIR => in_progress_files st
  | DONE_DIR => done_files st
  | FAILED_DIR => failed_files st
  end.

Definition set_listing (st : store) (d : queue_dir)
    (m : gmap string file_data) : store :=
  match d with
  | PENDING_DIR => Store m (in_progress_files st) (done_files st) (failed_files st)
  | IN_PROGRESS_DIR => Store (pending_files st) m (done_files st) (failed_files st)
  | DONE_DIR => Store (pending_files st) (in_progress_files st) m (failed_files st)
  | FAILED_DIR => Store (pending_files st) (in_progress_files st) (done_files st) m
  end.

(** ** Effects *)

Inductive exn : Type :=
| FileNotFoundError
| FileExistsError
| UnicodeDecodeError
| GraphRecursionError.

Inductive outcome (A : Type) : Type :=
| Ok (a : A)
| Raise (e : exn).
Arguments Ok {A} a.
Arguments Raise {A} e.

Inductive event : Type :=
| EvRename (src dst : path)
| EvCodex (prompt : string) (returncode : Z)
| EvBuild (returncode : Z) (output : string)
| EvSleep (seconds : nat).

(** The processes outside the worker, and the platform.  [rename_replaces]
    is the platform's answer to a rename onto an existing name: replace it
    (POSIX) or raise [FileExistsError] (Windows).  [normcase] is what
    [pathlib] makes of a name before it matches it against a pattern or
    compares it with another name: the name itself (POSIX) or the name in
    lower case (Windows). *)
Record environment : Type := Environment {
  codex_returncode : nat -> string -> Z;
  build_process : nat -> Z * string * string;
  rename_replaces : bool;
  normcase : string -> string
}.

Record world : Type := World {
  files : store;
  codex_calls : nat;
  build_calls : nat;
  trace : list event
}.

(** A computation over a state [W] that may raise. *)
Definition St (W A : Type) : Type := W -> outcome A * W.

Definition ret {W A} (a : A) : St W A := fun w => (Ok a, w).

Definition raise {W A} (e : exn) : St W A := fun w => (Raise e, w).

Definition bind {W A B} (m : St W A) (k : A -> St W B) : St W B :=
  fun w =>
    match m w with
    | (Ok a, w') => k a w'
    | (Raise e, w') => (Raise e, w')
    end.

Notation "x <-- m ;; k" := (bind m (fun x => k))
  (at level 100, m at next level, right associativity).
Notation "m ;;; k" := (bind m (fun _ => k))
  (at level 100, right associativity).

Abbreviation M := (St world).

Definition log (e : event) : M unit :=
  fun w => (Ok tt, World (files w) (codex_calls w) (build_calls w) (trace w ++ [e])).

Definition sleep (seconds : nat) : M unit := log (EvSleep seconds).

(** ** ai_worker.py *)

Module Worker.

(** *** Task handling (folder-based) *)

(** [ensure_task_dirs]: the four directories of a [store] always exist, so
    [mkdir(parents=True, exist_ok=True)] has nothing to do. *)
Definition ensure_task_dirs : M unit := ret tt.

(** [d.glob("*.md")]: the entries of [d] whose name, with the case folded
    as the platform folds it, ends in [.md]; in the order the directory
    lists its names. *)
Definition glob_md (E : environment) (d : queue_dir) : M (list path) :=
  fun w =>
    (Ok (Path d <$> filter (fun n => Is_true (PyStr.endswith (normcase E n) ".md"))
                      (elements (dom (listing (files w) d)))), w).

(** [Path.__lt__] on two paths of one directory compares their names, with
    the case folded as the platform folds it. *)
Definition path_le (E : environment) (p q : path) : Prop :=
  PyStr.le (normcase E (name p)) (normcase E (name q)).

Global Instance path_le_dec E : RelDecision (path_le E).
Proof. intros p q. unfold path_le, PyStr.le. apply _. Defined.

Definition sorted (E : environment) (l : list path) : list path :=
  merge_sort (path_le E) l.

Definition get_next_task_file (E : environment) : M (option path) :=
  found <-- glob_md E PENDING_DIR ;;
  let files := sorted E found in
  match files with
  | [] => ret None
  | first :: _ => ret (Some first)
  end.

(** What a successful [src.rename(dst)] does to the store. *)
Definition rename_file (src dst : path) (st : store) : store :=
  match listing st (parent src) !! name src with
  | None => st
  | Some f =>
      let st1 := set_listing st (parent src)
                   (delete (name src) (listing st (parent src))) in
      set_listing st1 (parent dst) (<[name dst := f]> (listing st1 (parent dst)))
  end.

(** [src.rename(dst)] *)
Definition rename (E : environment) (src dst : path) : M unit :=
  fun w =>
    match listing (files w) (parent src) !! name src with
    | None => (Raise FileNotFoundError, w)
    | Some _ =>
        if bool_decide (src <> dst
                        /\ is_Some (listing (files w) (parent dst) !! name dst))
           && negb (rename_replaces E)
        then (Raise FileExistsError, w)
        else (Ok tt, World (rename_file src dst (files w)) (codex_calls w)
                       (build_calls w) (trace w ++ [EvRename src dst]))
    end.

Definition move_task (E : environment) (src_path : path) (target_dir : queue_dir)
    : M path :=
  let target_path := Path target_dir (name src_path) in
  rename E src_path target_path ;;;
  ret target_path.

Definition read_task (task_path : path) : M string :=
  fun w =>
    match listing (files w) (parent task_path) !! name task_path with
    | None => (Raise FileNotFoundError, w)
    | Some Garbled => (Raise UnicodeDecodeError, w)
    | Some (Utf8 text) => (Ok text, w)
    end.

(** *** Codex call *)

Definition run_codex (E : environment) (prompt : string) : M bool :=
  fun w =>
    let returncode := codex_returncode E (codex_calls w) prompt in
    (Ok (if negb (returncode =? 0) then false else true),
     World (files w) (S (codex_calls w)) (build_calls w)
       (trace w ++ [EvCodex prompt returncode])).

(** *** Build using smart_run.ps1 *)

Definition build_project (E : environment) : M (Z * string) :=
  fun w =>
    let '(returncode, stdout, stderr) := build_process E (build_calls w) in
    (Ok (returncode, stdout ++ stderr),
     World (files w) (codex_calls w) (S (build_calls w))
       (trace w ++ [EvBuild returncode (stdout ++ stderr)])).

(** *** Fix build errors *)

Definition fix_prompt_head : string := "
Android Kotlin project build/deploy failed.

Fix ONLY the real compile/runtime/build errors from the log below.

Rules:
- Minimal safe changes
- Do NOT refactor unrelated code
- Do NOT break existing features
- Modify build.gradle ONLY if error explicitly requires dependency/plugin fix

ERROR LOG:
".

Definition fix_prompt_tail : string := "
".

Definition trimmed_log (error_log : string) : string :=
  PyStr.slice_from (-1000) error_log.

Definition fix_prompt (error_log : string) : string :=
  fix_prompt_head ++ trimmed_log error_log ++ fix_prompt_tail.

Definition fix_build_with_codex (E : environment) (error_log : string) : M bool :=
  run_codex E (fix_prompt error_log).

(** *** Main loop *)

Definition implement_prompt (task_content : string) : string :=
  "
Android Kotlin project.

Implement this task:
" ++ task_content ++ "

Rules:
- Production-ready code
- Minimal safe changes
- Do not break existing features
- Modify build.gradle ONLY if required
".

(** The body of [for attempt in range(5)], over the attempts that are left.
    The value is [build_success] when the loop is left, by [break] or by
    running out of attempts. *)
Fixpoint build_fix_loop (E : environment) (attempts : list nat) : M bool :=
  match attempts with
  | [] => ret false
  | attempt :: rest =>
      r <-- build_project E ;;
      let '(code, output) := r in
      if code =? 0 then ret true
      else
        fix_success <-- fix_build_with_codex E output ;;
        if negb fix_success then ret false
        else sleep 2 ;;; build_fix_loop E rest
  end.

(** One pass through the body of [while True]. *)
Definition iteration (E : environment) : M unit :=
  next <-- get_next_task_file E ;;
  match next with
  | None => sleep 300
  | Some task_file =>
      task_file <-- move_task E task_file IN_PROGRESS_DIR ;;
      task_content <-- read_task task_file ;;
      success <-- run_codex E (implement_prompt task_content) ;;
      if negb success then
        move_task E task_file FAILED_DIR ;;; ret tt
      else
        build_success <-- build_fix_loop E (seq 0 5) ;;
        (if build_success then move_task E task_file DONE_DIR
         else move_task E task_file FAILED_DIR) ;;;
        sleep 5
  end.

(** [while True], cut after [fuel] passes: [Ok] is a loop that is still
    running, [Raise] one that an exception has ended. *)
Fixpoint while_true (E : environment) (fuel : nat) : M unit :=
  match fuel with
  | O => ret tt
  | S fuel' => iteration E ;;; while_true E fuel'
  end.

Definition main_loop (E : environment) (fuel : nat) : M unit :=
  ensure_task_dirs ;;; while_true E fuel.

End Worker.

(** ** qa_agent.py *)

Module QA.

(** [QAState] *)
Record QAState : Type := { qa_text : string; report : string }.

(** The directory [qa_output]: missing, or there with or without
    [qa_decision.txt] in it. *)
Inductive output_dir : Type :=
| Absent
| Present (qa_decision : option string).

(** The files the script touches in its working directory, and the prompts
    it has sent to the model. *)
Record qa_world : Type := QAWorld {
  release_qa : option file_data;
  qa_output : output_dir;
  requests : list string
}.

Definition sentinel : string := "Q&A file missing.".

Definition read_qa (state : QAState) : St qa_world QAState :=
  fun w =>
    match release_qa w with
    | None => (Ok {| qa_text := sentinel; report := report state |}, w)
    | Some Garbled => (Raise UnicodeDecodeError, w)
    | Some (Utf8 text) => (Ok {| qa_text := text; report := report state |}, w)
    end.

Definition analysis_prompt (answers : string) : string :=
  "
You are a senior Android production readiness QA engineer for an offline music player.

Analyze the developer's release checklist answers below.

Goal:
- Detect REAL production risks only
- Identify crash/playback/billing risks
- Predict likely user complaints
- Decide if app is SAFE TO SHIP or FIX REQUIRED

Rules:
- Any NO in critical areas = RISK
- UNSURE = WARNING
- Focus on playback reliability, crashes, billing, background survival
- Ignore minor polish

Developer Answers:
" ++ answers ++ "

Output in structured format:

CRASH & STABILITY → SAFE / RISK
PLAYBACK RELIABILITY → SAFE / RISK
BACKGROUND SERVICE → SAFE / RISK
NOTIFICATION & CONTROLS → SAFE / RISK
LIBRARY & STORAGE → SAFE / RISK
PERFORMANCE → OK / RISK
BILLING → SAFE / RISK
USER COMPLAINT RISK → LOW / MEDIUM / HIGH

FINAL DECISION → SAFE TO SHIP / FIX BEFORE RELEASE

Also list:
- Top 3 risks (if any)
- What MUST be fixed before release
".

(** [output_text prompt] is [response.output_text] for the request
    [client.responses.create(model="gpt-4.1-mini", input=prompt)]. *)
Definition analyze_qa (output_text : string -> string) (state : QAState)
    : St qa_world QAState :=
  fun w =>
    let prompt := analysis_prompt (qa_text state) in
    (Ok {| qa_text := qa_text state; report := output_text prompt |},
     QAWorld (release_qa w) (qa_output w) (requests w ++ [prompt])).

(** [os.makedirs("qa_output", exist_ok=True)], then the report written over
    whatever [qa_decision.txt] held. *)
Definition save_report (state : QAState) : St qa_world QAState :=
  fun w =>
    (Ok state, QAWorld (release_qa w) (Present (Some (report state))) (requests w)).

(** *** Graph *)

Definition END : string := "__end__".

Definition graph_nodes (output_text : string -> string)
    : list (string * (QAState -> St qa_world QAState)) :=
  [("read_qa", read_qa);
   ("analyze_qa", analyze_qa output_text);
   ("save_report", save_report)].

Definition entry_point : string := "read_qa".

Definition graph_edges : list (string * string) :=
  [("read_qa", "analyze_qa");
   ("analyze_qa", "save_report");
   ("save_report", END)].

Fixpoint assoc {A} (key : string) (l : list (string * A)) : option A :=
  match l with
  | [] => None
  | (k, v) :: rest => if String.eqb k key then Some v else assoc key rest
  end.

(** The compiled graph: run the current node, follow its edge, stop at
    [END]; [limit] is the recursion limit of the runner. *)
Fixpoint run_from (output_text : string -> string) (limit : nat)
    (current : string) (state : QAState) : St qa_world QAState :=
  if String.eqb current END then ret state
  else
    match limit with
    | O => raise GraphRecursionError
    | S limit' =>
        match assoc current (graph_nodes output_text), assoc current graph_edges with
        | Some node, Some next =>
            state' <-- node state ;;
            run_from output_text limit' next state'
        | _, _ => ret state
        end
    end.

Definition recursion_limit : nat := 25.

Definition initial_state : QAState := {| qa_text := ""; report := "" |}.

(** [app.invoke(initial_state)] *)
Definition invoke (output_text : string -> string) : St qa_world QAState :=
  run_from output_text recursion_limit entry_point initial_state.

End QA.

(** ** Vocabulary of the properties *)

(** Task [n] lies in directory [d]. *)
Definition holds (st : store) (d : queue_dir) (n : string) : Prop :=
  is_Some (listing st d !! n).

Definition present (st : store) (n : string) : Prop := exists d, holds st d n.

(** Filename uniqueness across the whole store. *)
Definition unique_names (st : store) : Prop :=
  forall n d1 d2, holds st d1 n -> holds st d2 n -> d1 = d2.



(** A task file is one whose name ends in [.md], the case folded as the
    platform folds it. *)
Definition is_task_name (E : environment) (n : string) : Prop :=
  Is_true (PyStr.endswith (normcase E n) ".md").

(** The stores a run passes through are those its renames produce, one
    after the other. *)
Definition apply_event (st : store) (e : event) : store :=
  match e with
  | EvRename src dst => Worker.rename_file src dst st
  | _ => st
  end.

Definition replay (st : store) (evs : list event) : store :=
  fold_left apply_event evs st.

(** The two stores hold the same task names. *)
Definition same_names (st st' : store) : Prop :=
  forall n, present st n <-> present st' n.

Definition quiet (e : event) : Prop :=
  match e with EvRename _ _ => False | _ => True end.

(** A computation is steady when the store it leaves is the replay of the
    renames it logged, and when, from a store with unique names, every store
    on the way has unique names and the same task names as at the start. *)
Definition steady {A} (m : M A) : Prop :=
  forall w, exists evs,
    trace (m w).2 = (trace w ++ evs)%list
    /\ files (m w).2 = replay (files w) evs
    /\ (unique_names (files w) ->
        forall k, unique_names (replay (files w) (take k evs))
                  /\ same_names (files w) (replay (files w) (take k evs))).

(** The events of a run from [w] to [w']. *)
Definition events_since (w w' : world) : list event :=
  drop (length (trace w)) (trace w').














(** The reading of [next_pending] by which it answers none for the empty
    directory and for no other. *)
Definition none_exactly_when_empty (E : environment) (w : world) : Prop :=
  (Worker.get_next_task_file E w).1 = Ok None <-> pending_files (files w) = ∅.

(** The reading of the [.md] rule by the letters: when no name in
    [pending] ends in the characters [.md], the answer is none. *)
Definition none_without_md_letters (E : environment) (w : world) : Prop :=
  (forall n, holds (files w) PENDING_DIR n -> ~ Is_true (PyStr.endswith n ".md")) ->
  (Worker.get_next_task_file E w).1 = Ok None.


(** The report file is there and is not empty. *)
Definition nonempty_report (w : QA.qa_world) : Prop :=
  exists text, QA.qa_output w = QA.Present (Some text) /\ text <> "".

(** ** Sample worlds *)

Module Examples.

(** Two tasks and a stray note waiting in [pending]. *)
Definition queue : store :=
  Store (<["b.md" := Utf8 "Add a sleep timer"]>
           (<["a.md" := Utf8 "Fix the shuffle order"]>
              (<["notes.txt" := Utf8 "todo"]> ∅)))
        ∅ ∅ ∅.


(** Files in [pending], none of them a task. *)
Definition notes_only : store :=
  Store (<["notes.txt" := Utf8 "todo"]> (<["a.md.bak" := Utf8 "later"]> ∅)) ∅ ∅ ∅.

(** One task, its name in capitals. *)
Definition shouting : store := Store (<["A.MD" := Utf8 "Fix the equalizer"]> ∅) ∅ ∅ ∅.

(** Two tasks whose names differ in case. *)
Definition mixed_case : store :=
  Store (<["B.md" := Utf8 "Add a sleep timer"]>
           (<["a.md" := Utf8 "Fix the shuffle order"]> ∅)) ∅ ∅ ∅.

(** The same processes where names are matched and compared as written. *)
Definition posix_env (agent : nat -> string -> Z)
    (build : nat -> Z * string * string) : environment :=
  Environment agent build true (fun n => n).

(** [a.md] is pending although an earlier [a.md] failed. *)
Definition resubmitted : store :=
  Store (<["a.md" := Utf8 "second try"]> ∅) ∅ ∅ (<["a.md" := Utf8 "first try"]> ∅).

Definition start (st : store) : world := World st 0 0 [].

(** A build that fails its first [k] runs and passes from then on. *)
Definition build_fails_first (k : nat) (i : nat) : Z * string * string :=
  if (i <? k)%nat then (1, "> Task :app:compileDebugKotlin FAILED", "e: Unresolved reference")
  else (0, "BUILD SUCCESSFUL", "").

(** An agent that succeeds on its first [k] calls and fails from then on. *)
Definition agent_ok_first (k : nat) (i : nat) (prompt : string) : Z :=
  if (i <? k)%nat then 0 else 1.

Definition agent_ok (i : nat) (prompt : string) : Z := 0.

Definition env (agent : nat -> string -> Z) (build : nat -> Z * string * string)
    : environment :=
  Environment agent build false PyStr.lower.

(** A model that answers with no text at all. *)
Definition silent_model (prompt : string) : string := "".

Definition verbose_model (prompt : string) : string := "FINAL DECISION: FIX BEFORE RELEASE".

Definition no_checklist : QA.qa_world := QA.QAWorld None QA.Absent [].

End Examples.

(** ** Vocabulary of the further properties *)

(** The three transitions of a task: [pending] to [in_progress] for a task
    file, and [in_progress] to [done] or to [failed], the name kept. *)
Definition lifecycle (E : environment) (e : event) : Prop :=
  match e with
  | EvRename src dst =>
      name dst = name src
      /\ ((parent src = PENDING_DIR /\ parent dst = IN_PROGRESS_DIR
           /\ is_task_name E (name src))
          \/ (parent src = IN_PROGRESS_DIR
              /\ (parent dst = DONE_DIR \/ parent dst = FAILED_DIR)))
  | _ => True
  end.

(** A rename of the file called [nm], or no rename at all. *)
Definition about (nm : string) (e : event) : Prop :=
  match e with
  | EvRename src dst => name src = nm /\ name dst = nm
  | _ => True
  end.

(** Run from [w], the computation logs only events that satisfy [P]. *)
Definition emits_at {A} (P : event -> Prop) (m : M A) (w : world) : Prop :=
  exists evs, trace (m w).2 = (trace w ++ evs)%list /\ Forall P evs.

Definition emits {A} (P : event -> Prop) (m : M A) : Prop :=
  forall w, emits_at P m w.

(** Every value the computation returns satisfies [Q]. *)
Definition returns {A} (m : M A) (Q : A -> Prop) : Prop :=
  forall w a w', m w = (Ok a, w') -> Q a.




Module Cases.

(** Three tasks waiting, one task stranded in [in_progress] by an earlier
    run, and one report of an earlier run in [done]. *)
Definition backlog : store :=
  Store (<["03-cache.md" := Utf8 "Cache album art"]>
           (<["01-shuffle.md" := Utf8 "Fix the shuffle order"]>
              (<["02-timer.md" := Utf8 "Add a sleep timer"]>
                 (<["README.txt" := Utf8 "drop tasks here"]> ∅))))
        (<["00-crashed.md" := Utf8 "Migrate the database"]> ∅)
        (<["setup.md" := Utf8 "Create the project"]> ∅)
        ∅.

(** An agent that fails on every second call. *)
Definition agent_flaky (i : nat) (prompt : string) : Z :=
  if Nat.even i then 0 else 1.

(** A build that writes a long trace to standard error. *)
Definition noisy_build (i : nat) : Z * string * string :=
  (1, "> Task :app:compileDebugKotlin",
   "e: Unresolved reference: sleepTimer" ++ PyStr.take 1000
     (Nat.iter 40 (fun s => "    at org.gradle.api.internal.tasks " ++ s) "")).

Definition checklist_there : QA.qa_world :=
  QA.QAWorld (Some (Utf8 "Crash-free on rotation: YES")) (QA.Present (Some "old report")) [].

Definition checklist_garbled : QA.qa_world :=
  QA.QAWorld (Some Garbled) (QA.Present (Some "old report")) [].

Definition echo_model (prompt : string) : string := "REPORT FOR: " ++ prompt.

End Cases.

(** * Properties *)

(** ** Strings *)

Section PyStrFacts.

Import PyStr.

Lemma str_take_drop n s : take n s ++ drop n s = s.
Proof.
  revert s. induction n as [|n IH]; intros [|c s]; simpl; try reflexivity.
  now rewrite IH.
Qed.

Lemma str_length_drop n s : length (drop n s) = (length s - n)%nat.
Proof.
  revert s. induction n as [|n IH]; intros [|c s]; simpl; try reflexivity.
  apply IH.
Qed.

Lemma str_length_app s t : length (s ++ t) = (length s + length t)%nat.
Proof.
  unfold length. induction s as [|c s IH]; simpl; [reflexivity|].
  now rewrite IH.
Qed.

Lemma str_drop_app s t : drop (length s) (s ++ t) = t.
Proof. induction s as [|c s IH]; simpl; [reflexivity | exact IH]. Qed.

Lemma str_drop_all n s : (length s <= n)%nat -> drop n s = "".
Proof.
  revert s. induction n as [|n IH]; intros [|c s]; unfold length; simpl;
    intros H; try reflexivity; try lia.
  apply IH. unfold length. lia.
Qed.

Lemma endswith_spec s suffix :
  endswith s suffix = true <-> exists pre, s = pre ++ suffix.
Proof.
  unfold endswith. rewrite andb_true_iff, String.eqb_eq, Nat.leb_le. split.
  - intros [Hd _]. exists (take (length s - length suffix) s).
    rewrite <- (str_take_drop (length s - length suffix) s) at 1.
    now rewrite Hd.
  - intros [pre ->]. rewrite str_length_app. split; [|lia].
    replace (length pre + length suffix - length suffix)%nat
      with (length pre) by lia.
    apply str_drop_app.
Qed.

Lemma ascii_compare_refl c : Ascii.compare c c = Eq.
Proof. unfold Ascii.compare. apply N.compare_refl. Qed.

Lemma compare_refl s : Stdlib.Strings.String.compare s s = Eq.
Proof.
  induction s as [|c s IH]; simpl; [reflexivity|].
  now rewrite ascii_compare_refl.
Qed.

Lemma compare_not_gt_trans s1 s2 s3 :
  Stdlib.Strings.String.compare s1 s2 <> Gt ->
  Stdlib.Strings.String.compare s2 s3 <> Gt ->
  Stdlib.Strings.String.compare s1 s3 <> Gt.
Proof.
  revert s2 s3.
  induction s1 as [|a s1 IH]; intros [|b s2] [|c s3]; simpl; try congruence.
  unfold Ascii.compare.
  destruct (N.compare_spec (N_of_ascii a) (N_of_ascii b)) as [Hab|Hab|Hab];
    try congruence;
    destruct (N.compare_spec (N_of_ascii b) (N_of_ascii c)) as [Hbc|Hbc|Hbc];
    try congruence; intros H12 H23.
  - rewrite Hab, Hbc, N.compare_refl. now apply (IH s2).
  - rewrite Hab. apply N.compare_lt_iff in Hbc. now rewrite Hbc.
  - rewrite <- Hbc. apply N.compare_lt_iff in Hab. now rewrite Hab.
  - assert (Hac : (N_of_ascii a < N_of_ascii c)%N) by lia.
    apply N.compare_lt_iff in Hac. now rewrite Hac.
Qed.

Lemma le_compare s1 s2 : le s1 s2 <-> Stdlib.Strings.String.compare s1 s2 <> Gt.
Proof.
  unfold le, Stdlib.Strings.String.leb.
  destruct (Stdlib.Strings.String.compare s1 s2); split; congruence.
Qed.

Global Instance le_refl : Reflexive le.
Proof. intros s. apply le_compare. rewrite compare_refl. congruence. Qed.

Global Instance le_trans : Transitive le.
Proof.
  intros s1 s2 s3. rewrite !le_compare. apply compare_not_gt_trans.
Qed.

Global Instance le_total : Total le.
Proof. intros s1 s2. apply Stdlib.Strings.String.leb_total. Qed.

Global Instance le_antisym : AntiSymm (=) le.
Proof. intros s1 s2. apply Stdlib.Strings.String.leb_antisym. Qed.

End PyStrFacts.

(** ** The task store *)

Section StoreFacts.

Import Worker.

Lemma listing_set_listing st d m d' :
  listing (set_listing st d m) d' = if decide (d = d') then m else listing st d'.
Proof. destruct d, d'; reflexivity. Qed.

(** Where a file is after a rename that found its source. *)
Lemma lookup_rename_file src dst st f d n :
  listing st (parent src) !! name src = Some f ->
  listing (rename_file src dst st) d !! n =
    if decide (d = parent dst /\ n = name dst) then Some f
    else if decide (d = parent src /\ n = name src) then None
    else listing st d !! n.
Proof.
  intros Hsrc. unfold rename_file. rewrite Hsrc.
  destruct src as [ps ns], dst as [pd nd]; simpl in *.
  destruct ps, pd, d; simpl in *;
    repeat case_decide; destruct_and?; simplify_map_eq; try reflexivity;
    try (exfalso; intuition congruence);
    destruct (decide (n = nd)), (decide (n = ns));
    simplify_map_eq; intuition congruence.
Qed.


End StoreFacts.

(** ** Choosing the next task *)

Section NextTaskFacts.

Import Worker.

Variable E : environment.

Global Instance path_le_trans : Transitive (path_le E).
Proof. intros p q r. unfold path_le. apply le_trans. Qed.

Global Instance path_le_total : Total (path_le E).
Proof. intros p q. unfold path_le. apply le_total. Qed.

Lemma glob_md_run d w : exists found,
  glob_md E d w = (Ok found, w)
  /\ forall p, p ∈ found <->
       parent p = d /\ holds (files w) d (name p) /\ is_task_name E (name p).
Proof.
  eexists. split; [reflexivity|]. intros p.
  rewrite list_elem_of_fmap. split.
  - intros (n & -> & Hn). apply list_elem_of_filter in Hn as [Htask Hn].
    apply elem_of_elements, elem_of_dom in Hn. simpl.
    repeat split; [exact Hn | exact Htask].
  - intros (<- & Hthere & Htask). exists (name p). split; [now destruct p|].
    apply list_elem_of_filter. split; [exact Htask|].
    now apply elem_of_elements, elem_of_dom.
Qed.

Lemma sorted_head_least l first rest :
  sorted E l = first :: rest -> forall p, p ∈ l -> path_le E first p.
Proof.
  intros Hs p Hp.
  assert (Hperm : sorted E l ≡ₚ l) by apply merge_sort_Permutation.
  assert (Hsorted : StronglySorted (path_le E) (sorted E l))
    by apply (StronglySorted_merge_sort (path_le E)).
  rewrite <- Hperm, Hs in Hp. rewrite Hs in Hsorted.
  apply StronglySorted_inv in Hsorted as [_ Hall].
  apply elem_of_cons in Hp as [->|Hp].
  - unfold path_le. reflexivity.
  - rewrite Forall_forall in Hall. now apply Hall.
Qed.

Lemma sorted_nil_iff l : sorted E l = [] <-> l = [].
Proof.
  split; [|now intros ->].
  intros Hs. apply Permutation_nil_r. rewrite <- Hs.
  symmetry. apply merge_sort_Permutation.
Qed.

(** [get_next_task_file] raises nothing and changes nothing. *)
Lemma get_next_task_file_pure w : exists next, get_next_task_file E w = (Ok next, w).
Proof.
  unfold get_next_task_file, bind. destruct (glob_md_run PENDING_DIR w) as (found & -> & _).
  destruct (sorted E found); eexists; reflexivity.
Qed.

Lemma get_next_task_file_some w p :
  get_next_task_file E w = (Ok (Some p), w) ->
  parent p = PENDING_DIR
  /\ holds (files w) PENDING_DIR (name p)
  /\ is_task_name E (name p)
  /\ forall n, holds (files w) PENDING_DIR n -> is_task_name E n ->
       PyStr.le (normcase E (name p)) (normcase E n).
Proof.
  unfold get_next_task_file, bind.
  destruct (glob_md_run PENDING_DIR w) as (found & -> & Hfound).
  destruct (sorted E found) as [|first rest] eqn:Hs; [discriminate|].
  intros [= ->].
  assert (Hin : p ∈ found).
  { rewrite <- (merge_sort_Permutation (path_le E) found).
    fold (sorted E found). rewrite Hs. apply list_elem_of_here. }
  apply Hfound in Hin as (Hp & Hh & Ht). repeat split; try assumption.
  intros n Hn Htask.
  apply (sorted_head_least found p rest Hs (Path PENDING_DIR n)).
  apply Hfound. now repeat split.
Qed.

Lemma get_next_task_file_none w :
  get_next_task_file E w = (Ok None, w) <->
  forall n, holds (files w) PENDING_DIR n -> ~ is_task_name E n.
Proof.
  unfold get_next_task_file, bind.
  destruct (glob_md_run PENDING_DIR w) as (found & -> & Hfound).
  destruct (sorted E found) as [|first rest] eqn:Hs.
  - apply (proj1 (sorted_nil_iff found)) in Hs. subst found. split; [|reflexivity].
    intros _ n Hn Htask.
    assert (H : Path PENDING_DIR n ∈ []) by (apply Hfound; now repeat split).
    now apply not_elem_of_nil in H.
  - split; [discriminate|]. intros Hnone. exfalso.
    assert (Hin : first ∈ found).
    { rewrite <- (merge_sort_Permutation (path_le E) found).
      fold (sorted E found). rewrite Hs. apply list_elem_of_here. }
    apply Hfound in Hin as (_ & Hh & Ht). exact (Hnone _ Hh Ht).
Qed.

End NextTaskFacts.


Section NextTaskNames.

Import Worker.

Variable E : environment.


End NextTaskNames.

(** ** Running the worker *)

Section WorkerRuns.

Import Worker.

Variable E : environment.


Lemma replay_app st l1 l2 : replay st (l1 ++ l2) = replay (replay st l1) l2.
Proof. unfold replay. apply fold_left_app. Qed.





(** *** The primitives *)



(** *** The retry loop *)







(** *** One pass over a task *)

Section Pass.

Variables (w : world) (p : path) (content : string).

Hypothesis Hnext : get_next_task_file E w = (Ok (Some p), w).
Hypothesis Hread : listing (files w) PENDING_DIR !! name p = Some (Utf8 content).
Hypothesis Huniq : unique_names (files w).

Let n := name p.
Let returncode := codex_returncode E (codex_calls w) (implement_prompt content).










End Pass.

End WorkerRuns.

(** ** The claims about the worker's pass over a task *)






Lemma world_eta w : w = World (files w) (codex_calls w) (build_calls w) (trace w).
Proof. now destruct w. Qed.



Section Scenarios.

Variables (E : environment) (w : world) (p : path) (content : string).

Hypothesis Hnext : Worker.get_next_task_file E w = (Ok (Some p), w).
Hypothesis Hread : listing (files w) PENDING_DIR !! name p = Some (Utf8 content).
Hypothesis Huniq : unique_names (files w).
Hypothesis Himpl :
  codex_returncode E (codex_calls w) (Worker.implement_prompt content) = 0.

Let w' := (Worker.iteration E w).2.
Let evs := events_since w w'.




End Scenarios.







(** ** The fix prompt *)

Lemma trimmed_log_drop error_log :
  Worker.trimmed_log error_log
  = PyStr.drop (PyStr.length error_log - 1000) error_log.
Proof.
  unfold Worker.trimmed_log, PyStr.slice_from.
  change (-1000 <? 0) with true. cbv iota. f_equal. lia.
Qed.

(** C6. The fix prompt is its fixed head, the trimmed log and its fixed
    tail, and that is the prompt the agent is called with.  The trimmed log
    has at most 1000 characters, [min 1000 (length of the output)] of them
    exactly, and is a suffix of the build output: the whole output when that
    has at most 1000 characters, its last 1000 characters otherwise. *)
Theorem fix_prompt_embeds_last_1000 (E : environment) (error_log : string) (w : world) :
  let kept := Worker.trimmed_log error_log in
  Worker.fix_prompt error_log
    = Worker.fix_prompt_head ++ kept ++ Worker.fix_prompt_tail
  /\ trace (Worker.fix_build_with_codex E error_log w).2
     = (trace w ++ [EvCodex (Worker.fix_prompt_head ++ kept ++ Worker.fix_prompt_tail)%string
                      (codex_returncode E (codex_calls w) (Worker.fix_prompt error_log))])%list
  /\ (PyStr.length kept <= 1000)%nat
  /\ PyStr.length kept = Nat.min 1000 (PyStr.length error_log)
  /\ (exists dropped, error_log = dropped ++ kept)
  /\ ((PyStr.length error_log <= 1000)%nat -> kept = error_log)
  /\ ((1000 < PyStr.length error_log)%nat ->
      kept = PyStr.drop (PyStr.length error_log - 1000) error_log
      /\ PyStr.length kept = 1000%nat).
Proof.
  intros kept. subst kept. rewrite trimmed_log_drop.
  pose proof (str_length_drop (PyStr.length error_log - 1000) error_log) as Hlen.
  split; [unfold Worker.fix_prompt; now rewrite trimmed_log_drop|].
  split; [unfold Worker.fix_build_with_codex, Worker.run_codex, Worker.fix_prompt;
          cbn [snd trace]; now rewrite trimmed_log_drop|].
  split; [lia|]. split; [lia|].
  split.
  { exists (PyStr.take (PyStr.length error_log - 1000) error_log).
    symmetry. apply str_take_drop. }
  split.
  - intros Hshort.
    replace (PyStr.length error_log - 1000)%nat with 0%nat by lia. reflexivity.
  - intros Hlong. split; [reflexivity | lia].
Qed.

(** ** The next pending task *)

Lemma idle_iteration E w :
  Worker.get_next_task_file E w = (Ok None, w) ->
  Worker.iteration E w
  = (Ok tt, World (files w) (codex_calls w) (build_calls w)
              (trace w ++ [EvSleep 300])).
Proof. intros H. unfold Worker.iteration, bind. now rewrite H. Qed.

Lemma idle_loop E fuel w :
  (forall n, holds (files w) PENDING_DIR n -> ~ is_task_name E n) ->
  Worker.main_loop E fuel w
  = (Ok tt, World (files w) (codex_calls w) (build_calls w)
              (trace w ++ repeat (EvSleep 300) fuel)).
Proof.
  unfold Worker.main_loop, Worker.ensure_task_dirs, bind, ret.
  revert w. induction fuel as [|fuel IH]; intros w Hnone.
  - simpl. rewrite app_nil_r. unfold ret. f_equal. apply world_eta.
  - simpl. unfold bind.
    rewrite (idle_iteration E w) by now apply get_next_task_file_none.
    rewrite IH by exact Hnone. simpl. now rewrite <- app_assoc.
Qed.

Lemma next_is_none_on_notes E :
  normcase E = PyStr.lower \/ normcase E = (fun n => n) ->
  Worker.get_next_task_file E (Examples.start Examples.notes_only)
  = (Ok None, Examples.start Examples.notes_only).
Proof.
  intros Hcase. apply get_next_task_file_none. intros n [f Hf].
  unfold is_task_name.
  assert (Hn : n = "notes.txt" \/ n = "a.md.bak").
  { change ((<["notes.txt" := Utf8 "todo"]> (<["a.md.bak" := Utf8 "later"]> ∅)
               : gmap string file_data) !! n = Some f) in Hf.
    destruct (decide (n = "notes.txt")) as [->|H1]; [now left|].
    rewrite lookup_insert_ne in Hf by congruence.
    destruct (decide (n = "a.md.bak")) as [->|H2]; [now right|].
    rewrite lookup_insert_ne, lookup_empty in Hf by congruence. discriminate. }
  destruct Hcase as [-> | ->], Hn as [-> | ->]; vm_compute; tauto.
Qed.

(** C7, as stated, fails: with only [notes.txt] and [a.md.bak] in
    [pending] the answer is none although the directory is not empty, under
    either case rule. *)
Lemma none_on_nonempty_pending :
  ~ none_exactly_when_empty
      (Examples.env Examples.agent_ok (Examples.build_fails_first 0))
      (Examples.start Examples.notes_only)
  /\ ~ none_exactly_when_empty
        (Examples.posix_env Examples.agent_ok (Examples.build_fails_first 0))
        (Examples.start Examples.notes_only).
Proof.
  assert (Hthere : pending_files (files (Examples.start Examples.notes_only))
                   !! "notes.txt" = Some (Utf8 "todo")) by (vm_compute; reflexivity).
  split; unfold none_exactly_when_empty;
    (rewrite next_is_none_on_notes; [|simpl; tauto]);
    intros [Hempty _]; specialize (Hempty eq_refl);
    rewrite Hempty, lookup_empty in Hthere; discriminate.
Qed.

(** C7, amended. [get_next_task_file] raises nothing and changes nothing.
    A task file is a file whose name, folded as the platform folds case
    (not at all on POSIX, to lower case on Windows), ends in [.md].  When
    [get_next_task_file] returns a path, that is a task file of [pending]
    and its folded name is least, in the order of strings, among the folded
    names of the task files there; it returns one whenever [pending] holds a
    task file.  It returns none exactly when [pending] holds no task file,
    the empty directory included, and then the pass only sleeps 300 seconds
    and ends normally. *)
Theorem next_task_is_least_md_file (E : environment) (w : world) :
  (exists next, Worker.get_next_task_file E w = (Ok next, w))
  /\ (forall n, is_task_name E n <-> exists stem, normcase E n = stem ++ ".md")
  /\ (forall p, Worker.get_next_task_file E w = (Ok (Some p), w) ->
        parent p = PENDING_DIR
        /\ holds (files w) PENDING_DIR (name p)
        /\ is_task_name E (name p)
        /\ forall n, holds (files w) PENDING_DIR n -> is_task_name E n ->
             PyStr.le (normcase E (name p)) (normcase E n))
  /\ (forall n, holds (files w) PENDING_DIR n -> is_task_name E n ->
        exists p, Worker.get_next_task_file E w = (Ok (Some p), w))
  /\ (Worker.get_next_task_file E w = (Ok None, w) <->
      forall n, holds (files w) PENDING_DIR n -> ~ is_task_name E n)
  /\ (pending_files (files w) = ∅ -> Worker.get_next_task_file E w = (Ok None, w))
  /\ (Worker.get_next_task_file E w = (Ok None, w) ->
      Worker.iteration E w
      = (Ok tt, World (files w) (codex_calls w) (build_calls w)
                  (trace w ++ [EvSleep 300]))).
Proof.
  split; [apply get_next_task_file_pure|].
  split.
  { intros n. unfold is_task_name. rewrite Is_true_true. apply endswith_spec. }
  split; [apply get_next_task_file_some|].
  split.
  { intros n Hn Htask.
    destruct (get_next_task_file_pure E w) as ([p|] & Hp); [now exists p|].
    exfalso. exact (proj1 (get_next_task_file_none E w) Hp n Hn Htask). }
  split; [apply get_next_task_file_none|].
  split.
  - intros Hempty. apply get_next_task_file_none. intros n [x Hx].
    simpl in Hx. rewrite Hempty, lookup_empty in Hx. discriminate.
  - intros Hnone. now apply idle_iteration.
Qed.

(** C10, as stated, fails where the platform ignores case: with [A.MD]
    alone in [pending] no name ends in the characters [.md], and yet the
    answer is [A.MD], which the pass then moves and hands to the agent. *)
Lemma capitals_are_picked_where_case_is_ignored :
  let E := Examples.env Examples.agent_ok (Examples.build_fails_first 0) in
  let w := Examples.start Examples.shouting in
  ~ none_without_md_letters E w
  /\ (Worker.get_next_task_file E w).1 = Ok (Some (Path PENDING_DIR "A.MD"))
  /\ trace (Worker.iteration E w).2
     = [EvRename (Path PENDING_DIR "A.MD") (Path IN_PROGRESS_DIR "A.MD");
        EvCodex (Worker.implement_prompt "Fix the equalizer") 0;
        EvBuild 0 "BUILD SUCCESSFUL";
        EvRename (Path IN_PROGRESS_DIR "A.MD") (Path DONE_DIR "A.MD");
        EvSleep 5].
Proof.
  intros E w.
  assert (Hpick : (Worker.get_next_task_file E w).1 = Ok (Some (Path PENDING_DIR "A.MD")))
    by (vm_compute; reflexivity).
  split; [|split; [exact Hpick | vm_compute; reflexivity]].
  intros Hrule.
  assert (Hnone : (Worker.get_next_task_file E w).1 = Ok None);
    [apply Hrule | rewrite Hpick in Hnone; discriminate].
  intros n [f Hf].
  change ((<["A.MD" := Utf8 "Fix the equalizer"]> ∅ : gmap string file_data) !! n
          = Some f) in Hf.
  destruct (decide (n = "A.MD")) as [->|Hn]; [vm_compute; tauto|].
  rewrite lookup_insert_ne, lookup_empty in Hf by congruence. discriminate.
Qed.

(** C10, amended. The names that count are those that, folded as the
    platform folds case, have the form [stem ++ ".md"]: the names that end
    in [.md] as written where the platform does not fold (POSIX), and those
    that end in [.md] in any mixture of cases where it folds to lower case
    (Windows).  When [pending] holds no such name, whatever else it holds,
    [get_next_task_file] returns none, as it does for the store with
    [pending] emptied, and the loop, however long it runs, only sleeps: the
    store stays as it is and nothing is renamed, handed to the agent or
    built. *)
Theorem only_md_files_are_tasks (E : environment) (w : world) (fuel : nat) :
  (forall n, holds (files w) PENDING_DIR n -> ~ is_task_name E n) ->
  (forall n, is_task_name E n <-> exists stem, normcase E n = stem ++ ".md")
  /\ ((forall n, normcase E n = n) ->
      forall n, is_task_name E n <-> exists stem, n = stem ++ ".md")
  /\ Worker.get_next_task_file E w = (Ok None, w)
  /\ (Worker.get_next_task_file E w).1
     = (Worker.get_next_task_file E
          (World (set_listing (files w) PENDING_DIR ∅) (codex_calls w)
             (build_calls w) (trace w))).1
  /\ Worker.main_loop E fuel w
     = (Ok tt, World (files w) (codex_calls w) (build_calls w)
                 (trace w ++ repeat (EvSleep 300) fuel)).
Proof.
  intros Hnone.
  assert (Hrule : forall n, is_task_name E n <-> exists stem, normcase E n = stem ++ ".md").
  { intros n. unfold is_task_name. rewrite Is_true_true. apply endswith_spec. }
  split; [exact Hrule|].
  split; [intros Hid n; rewrite Hrule; now rewrite Hid|].
  assert (H1 : Worker.get_next_task_file E w = (Ok None, w))
    by now apply get_next_task_file_none.
  split; [exact H1|]. split; [|now apply idle_loop].
  rewrite H1. symmetry.
  match goal with |- (Worker.get_next_task_file E ?w0).1 = _ =>
    assert (H0 : Worker.get_next_task_file E w0 = (Ok None, w0)) end.
  { apply get_next_task_file_none. intros n [x Hx]. simpl in Hx.
    rewrite lookup_empty in Hx. discriminate. }
  now rewrite H0.
Qed.

Lemma only_md_files_are_tasks_witness :
  Worker.main_loop (Examples.env Examples.agent_ok (Examples.build_fails_first 0)) 3
    (Examples.start Examples.notes_only)
  = (Ok tt, World Examples.notes_only 0 0 [EvSleep 300; EvSleep 300; EvSleep 300]).
Proof.
  refine (proj2 (proj2 (proj2 (proj2
    (only_md_files_are_tasks
       (Examples.env Examples.agent_ok (Examples.build_fails_first 0))
       (Examples.start Examples.notes_only) 3 _))))).
  apply get_next_task_file_none. apply next_is_none_on_notes. now left.
Defined.

(** The case rule decides which file is next: where case is folded [a.md]
    comes before [B.md] and [A.MD] is a task; where names are taken as
    written [B.md] comes first and [A.MD] is no task. *)
Lemma case_rule_decides_the_pick :
  let folding := Examples.env Examples.agent_ok (Examples.build_fails_first 0) in
  let exact := Examples.posix_env Examples.agent_ok (Examples.build_fails_first 0) in
  (Worker.get_next_task_file folding (Examples.start Examples.mixed_case)).1
  = Ok (Some (Path PENDING_DIR "a.md"))
  /\ (Worker.get_next_task_file exact (Examples.start Examples.mixed_case)).1
     = Ok (Some (Path PENDING_DIR "B.md"))
  /\ (Worker.get_next_task_file folding (Examples.start Examples.shouting)).1
     = Ok (Some (Path PENDING_DIR "A.MD"))
  /\ (Worker.get_next_task_file exact (Examples.start Examples.shouting)).1
     = Ok None.
Proof. vm_compute. repeat split. Qed.

(** ** Errors in a pass *)






(** A task whose name is already taken in [failed]: where renames do not
    replace, the move that should record the failure raises instead, and
    the task stays in [in_progress]. *)
Lemma resubmitted_name_blocks_the_move :
  let E := Examples.env (Examples.agent_ok_first 0) (Examples.build_fails_first 0) in
  let w := Examples.start Examples.resubmitted in
  (Worker.main_loop E 2 w).1 = Raise FileExistsError
  /\ listing (files (Worker.main_loop E 2 w).2) IN_PROGRESS_DIR !! "a.md"
     = Some (Utf8 "second try")
  /\ listing (files (Worker.main_loop E 2 w).2) FAILED_DIR !! "a.md"
     = Some (Utf8 "first try").
Proof. vm_compute. repeat split. Qed.




(** ** The QA report *)

Lemma invoke_without_checklist output_text w :
  QA.release_qa w = None ->
  QA.invoke output_text w
  = (Ok {| QA.qa_text := QA.sentinel;
           QA.report := output_text (QA.analysis_prompt QA.sentinel) |},
     QA.QAWorld None
       (QA.Present (Some (output_text (QA.analysis_prompt QA.sentinel))))
       (QA.requests w ++ [QA.analysis_prompt QA.sentinel])).
Proof.
  intros Hmissing. unfold QA.invoke, QA.recursion_limit, QA.entry_point.
  cbn [QA.run_from QA.assoc QA.graph_nodes QA.graph_edges QA.END String.eqb
       Ascii.eqb Bool.eqb].
  unfold bind, QA.read_qa. rewrite Hmissing.
  unfold QA.analyze_qa, QA.save_report, ret.
  cbn [QA.qa_text QA.report QA.release_qa QA.qa_output QA.requests].
  now rewrite Hmissing.
Qed.

(** C9, as stated, fails: when the model answers with no text, the report
    file written for a missing checklist is empty. *)
Lemma silent_model_leaves_empty_report :
  QA.release_qa Examples.no_checklist = None
  /\ (QA.invoke Examples.silent_model Examples.no_checklist).1
     = Ok {| QA.qa_text := QA.sentinel; QA.report := "" |}
  /\ QA.qa_output (QA.invoke Examples.silent_model Examples.no_checklist).2
     = QA.Present (Some "")
  /\ ~ nonempty_report (QA.invoke Examples.silent_model Examples.no_checklist).2.
Proof.
  rewrite (invoke_without_checklist Examples.silent_model Examples.no_checklist eq_refl).
  cbn [fst snd QA.qa_output]. repeat split.
  intros (text & Hfile & Htext). apply Htext.
  cbn [QA.qa_output] in Hfile. unfold Examples.silent_model in Hfile. congruence.
Qed.

(** C9, amended. When the checklist file is missing, the sentinel message
    stands in for the checklist: it is sent inside the analysis prompt, in
    one request, and the run ends normally with the output directory there
    and the report file holding the model's answer as it came.  The file is
    non-empty exactly when that answer is. *)
Theorem missing_checklist_still_reports (output_text : string -> string)
    (w : QA.qa_world) :
  QA.release_qa w = None ->
  let answer := output_text (QA.analysis_prompt QA.sentinel) in
  let w' := (QA.invoke output_text w).2 in
  (QA.invoke output_text w).1
  = Ok {| QA.qa_text := QA.sentinel; QA.report := answer |}
  /\ QA.requests w' = (QA.requests w ++ [QA.analysis_prompt QA.sentinel])%list
  /\ QA.qa_output w' = QA.Present (Some answer)
  /\ (nonempty_report w' <-> answer <> "").
Proof.
  intros Hmissing answer w'. subst w'.
  rewrite (invoke_without_checklist output_text w Hmissing).
  cbn [fst snd QA.requests QA.qa_output]. fold answer.
  split; [reflexivity|]. split; [reflexivity|]. split; [reflexivity|].
  split.
  - intros (text & Hfile & Htext). cbn [QA.qa_output] in Hfile. congruence.
  - intros Hanswer. exists answer. split; [reflexivity | exact Hanswer].
Qed.

Lemma missing_checklist_still_reports_witness :
  nonempty_report (QA.invoke Examples.verbose_model Examples.no_checklist).2.
Proof.
  destruct (missing_checklist_still_reports Examples.verbose_model
              Examples.no_checklist eq_refl) as (_ & _ & _ & Hfile).
  apply Hfile. vm_compute. discriminate.
Defined.

(** ** Names and places *)

Section Steady.

Import Worker.

Variable E : environment.

Lemma same_names_refl st : same_names st st.
Proof. intros n. reflexivity. Qed.

Lemma same_names_trans st1 st2 st3 :
  same_names st1 st2 -> same_names st2 st3 -> same_names st1 st3.
Proof. intros H1 H2 n. now rewrite (H1 n). Qed.

Lemma replay_quiet st evs : Forall quiet evs -> replay st evs = st.
Proof.
  induction 1 as [|e evs He _ IH]; [reflexivity|].
  change (replay st (e :: evs)) with (replay (apply_event st e) evs).
  destruct e; simpl in *; try contradiction; exact IH.
Qed.

(** A computation that leaves the store alone and logs no rename. *)
Lemma steady_quiet {A} (m : M A) :
  (forall w, files (m w).2 = files w
             /\ exists evs, trace (m w).2 = (trace w ++ evs)%list /\ Forall quiet evs) ->
  steady m.
Proof.
  intros Hm w. destruct (Hm w) as (Hfiles & evs & Htrace & Hquiet).
  exists evs. split; [exact Htrace|].
  split; [now rewrite replay_quiet|].
  intros Huniq k. rewrite replay_quiet by now apply Forall_take.
  split; [exact Huniq | apply same_names_refl].
Qed.

Lemma steady_ret {A} (a : A) : steady (ret a).
Proof.
  apply steady_quiet. intros w. split; [reflexivity|].
  exists []. simpl. now rewrite app_nil_r.
Qed.

Lemma steady_sleep seconds : steady (sleep seconds).
Proof.
  apply steady_quiet. intros w. split; [reflexivity|].
  exists [EvSleep seconds]. split; [reflexivity|]. repeat constructor.
Qed.

Lemma steady_bind {A B} (m : M A) (k : A -> M B) :
  steady m -> (forall a, steady (k a)) -> steady (bind m k).
Proof.
  intros Hm Hk w. destruct (Hm w) as (evs1 & Ht1 & Hf1 & Hinv1).
  unfold bind. destruct (m w) as [[a|e] w1] eqn:Hrun; simpl in *.
  - destruct (Hk a w1) as (evs2 & Ht2 & Hf2 & Hinv2).
    exists (evs1 ++ evs2)%list.
    split; [now rewrite Ht2, Ht1, app_assoc|].
    split; [now rewrite Hf2, Hf1, replay_app|].
    intros Huniq k0. rewrite take_app, replay_app.
    destruct (Hinv1 Huniq (length evs1)) as (Hu1 & Hs1).
    rewrite firstn_all in Hu1, Hs1. rewrite <- Hf1 in Hu1, Hs1.
    destruct (le_lt_dec (length evs1) k0) as [Hle|Hlt].
    + rewrite (take_ge evs1 k0) by exact Hle. rewrite <- Hf1.
      destruct (Hinv2 Hu1 (k0 - length evs1)%nat) as (Hu2 & Hs2).
      split; [exact Hu2 | exact (same_names_trans _ _ _ Hs1 Hs2)].
    + replace (k0 - length evs1)%nat with 0%nat by lia.
      rewrite take_0. simpl. apply Hinv1. exact Huniq.
  - exists evs1. repeat split; try assumption; now apply Hinv1.
Qed.

Lemma steady_get_next_task_file : steady (get_next_task_file E).
Proof.
  apply steady_quiet. intros w.
  destruct (get_next_task_file_pure E w) as (next & ->). split; [reflexivity|].
  exists []. simpl. now rewrite app_nil_r.
Qed.

Lemma steady_read_task task_path : steady (read_task task_path).
Proof.
  apply steady_quiet. intros w. unfold read_task.
  destruct (listing (files w) (parent task_path) !! name task_path) as [[text|]|];
    (split; [reflexivity|]); exists []; simpl; now rewrite app_nil_r.
Qed.

Lemma steady_run_codex prompt : steady (run_codex E prompt).
Proof.
  apply steady_quiet. intros w. split; [reflexivity|].
  eexists [_]. split; [reflexivity|]. repeat constructor.
Qed.

Lemma steady_build_project : steady (build_project E).
Proof.
  apply steady_quiet. intros w. unfold build_project.
  destruct (build_process E (build_calls w)) as [[code out] err].
  split; [reflexivity|].
  eexists [_]. split; [reflexivity|]. repeat constructor.
Qed.

Lemma steady_build_fix_loop attempts : steady (build_fix_loop E attempts).
Proof.
  induction attempts as [|attempt rest IH]; simpl; [apply steady_ret|].
  apply steady_bind; [apply steady_build_project|]. intros [code output].
  destruct (code =? 0); [apply steady_ret|].
  apply steady_bind; [apply steady_run_codex|]. intros fix_success.
  destruct (negb fix_success); [apply steady_ret|].
  apply steady_bind; [apply steady_sleep | intros _; exact IH].
Qed.

End Steady.

Section Moves.

Import Worker.

Variable E : environment.

Lemma holds_rename_file src dst st f d n :
  listing st (parent src) !! name src = Some f ->
  holds (rename_file src dst st) d n <->
  (d = parent dst /\ n = name dst)
  \/ (~ (d = parent src /\ n = name src) /\ holds st d n).
Proof.
  intros Hsrc. unfold holds. rewrite (lookup_rename_file _ _ _ f) by exact Hsrc.
  repeat case_decide; split; intros Hh; try tauto; eauto.
  destruct Hh as [x Hx]. discriminate.
Qed.

(** A rename that keeps the name keeps the names unique and the same. *)
Lemma rename_keeps_names st src d f :
  listing st (parent src) !! name src = Some f ->
  unique_names st ->
  unique_names (rename_file src (Path d (name src)) st)
  /\ same_names st (rename_file src (Path d (name src)) st).
Proof.
  intros Hsrc Huniq.
  assert (Hhere : holds st (parent src) (name src))
    by (unfold holds; now rewrite Hsrc).
  assert (Hwhere : forall d' n, holds (rename_file src (Path d (name src)) st) d' n ->
                     (n = name src /\ d' = d) \/ (n <> name src /\ holds st d' n)).
  { intros d' n H. apply (holds_rename_file _ _ _ f) in H; [|exact Hsrc].
    simpl in H. destruct H as [[-> ->]|[Hne H]]; [now left|].
    destruct (decide (n = name src)) as [->|Hn]; [|now right].
    exfalso. apply Hne. split; [|reflexivity]. now apply (Huniq (name src)). }
  split.
  - intros n d1 d2 H1 H2.
    destruct (Hwhere _ _ H1) as [[Hn1 ->]|[Hn1 H1']],
             (Hwhere _ _ H2) as [[Hn2 ->]|[Hn2 H2']];
      try reflexivity; try contradiction.
    now apply (Huniq n).
  - intros n. split.
    + intros [d' H]. destruct (decide (n = name src)) as [->|Hn].
      * exists d. apply (holds_rename_file _ _ _ f); [exact Hsrc|]. now left.
      * exists d'. apply (holds_rename_file _ _ _ f); [exact Hsrc|].
        right. split; [tauto | exact H].
    + intros [d' H]. destruct (Hwhere _ _ H) as [[-> ->]|[_ H']].
      * now exists (parent src).
      * now exists d'.
Qed.

Lemma steady_move_task src d : steady (move_task E src d).
Proof.
  intros w. unfold move_task, bind, rename.
  destruct (listing (files w) (parent src) !! name src) as [f|] eqn:Hsrc.
  2:{ exists []. simpl. rewrite app_nil_r.
      split; [reflexivity|]. split; [reflexivity|].
      intros Huniq k. rewrite take_nil. simpl.
      split; [exact Huniq | apply same_names_refl]. }
  destruct (bool_decide _ && negb (rename_replaces E)).
  { exists []. simpl. rewrite app_nil_r.
    split; [reflexivity|]. split; [reflexivity|].
    intros Huniq k. rewrite take_nil. simpl.
    split; [exact Huniq | apply same_names_refl]. }
  exists [EvRename src (Path d (name src))]. simpl.
  split; [reflexivity|]. split; [reflexivity|].
  intros Huniq [|k]; simpl.
  - split; [assumption | apply same_names_refl].
  - rewrite take_nil. simpl. now apply (rename_keeps_names _ _ _ f).
Qed.

Lemma steady_iteration : steady (iteration E).
Proof.
  unfold iteration.
  apply steady_bind; [apply steady_get_next_task_file|]. intros [task_file|].
  2:{ apply steady_sleep. }
  apply steady_bind; [apply steady_move_task|]. intros in_progress.
  apply steady_bind; [apply steady_read_task|]. intros task_content.
  apply steady_bind; [apply steady_run_codex|]. intros success.
  destruct (negb success).
  - apply steady_bind; [apply steady_move_task | intros _; apply steady_ret].
  - apply steady_bind; [apply steady_build_fix_loop|]. intros build_success.
    apply steady_bind; [|intros _; apply steady_sleep].
    destruct build_success; apply steady_move_task.
Qed.

Lemma steady_while_true fuel : steady (while_true E fuel).
Proof.
  induction fuel as [|fuel IH]; simpl; [apply steady_ret|].
  apply steady_bind; [apply steady_iteration | intros _; exact IH].
Qed.

Lemma steady_main_loop fuel : steady (main_loop E fuel).
Proof.
  unfold main_loop, ensure_task_dirs.
  apply steady_bind; [apply steady_ret | intros _; apply steady_while_true].
Qed.

(** What a move that went through has done. *)
Lemma move_task_keeps_name src d w moved w' :
  move_task E src d w = (Ok moved, w') ->
  moved = Path d (name src)
  /\ is_Some (listing (files w) (parent src) !! name src)
  /\ listing (files w') d !! name src
     = listing (files w) (parent src) !! name src
  /\ (parent src <> d -> ~ holds (files w') (parent src) (name src)).
Proof.
  unfold move_task, bind, rename.
  destruct (listing (files w) (parent src) !! name src) as [f|] eqn:Hsrc;
    [|discriminate].
  destruct (bool_decide _ && negb (rename_replaces E)); [discriminate|].
  unfold ret. intros [= <- <-]. cbn [files].
  split; [reflexivity|]. split; [eauto|]. split.
  - rewrite (lookup_rename_file _ _ _ f) by exact Hsrc. simpl.
    now rewrite decide_True.
  - intros Hne [x Hx]. revert Hx.
    rewrite (lookup_rename_file _ _ _ f) by exact Hsrc. simpl.
    rewrite decide_False by (intros [? ?]; congruence).
    now rewrite decide_True.
Qed.

End Moves.






(** * Further properties *)

(** ** What a run logs *)

Section Emits.

Import Worker.

Variable E : environment.
Variable P : event -> Prop.
Hypothesis Pquiet : forall e, quiet e -> P e.

Lemma emits_nothing {A} (m : M A) :
  (forall w, trace (m w).2 = trace w) -> emits P m.
Proof.
  intros Hm w. exists []. rewrite Hm, app_nil_r. split; [reflexivity | constructor].
Qed.

Lemma emits_ret {A} (a : A) : emits P (ret a).
Proof. now apply emits_nothing. Qed.

Lemma emits_sleep seconds : emits P (sleep seconds).
Proof.
  intros w. exists [EvSleep seconds]. split; [reflexivity|].
  repeat constructor. now apply Pquiet.
Qed.

Lemma emits_at_bind {A B} (m : M A) (k : A -> M B) (Q : A -> Prop) w :
  emits_at P m w -> returns m Q -> (forall a, Q a -> emits P (k a)) ->
  emits_at P (bind m k) w.
Proof.
  intros (evs1 & Ht1 & HP1) Hret Hk. unfold emits_at, bind.
  destruct (m w) as [[a|e] w1] eqn:Hrun; simpl in *.
  - destruct (Hk a (Hret _ _ _ Hrun) w1) as (evs2 & Ht2 & HP2).
    exists (evs1 ++ evs2)%list. split; [now rewrite Ht2, Ht1, app_assoc|].
    apply Forall_app. now split.
  - now exists evs1.
Qed.

Lemma emits_bind {A B} (m : M A) (k : A -> M B) (Q : A -> Prop) :
  emits P m -> returns m Q -> (forall a, Q a -> emits P (k a)) ->
  emits P (bind m k).
Proof. intros Hm Hret Hk w. now apply (emits_at_bind m k Q). Qed.

Lemma returns_any {A} (m : M A) : returns m (fun _ => True).
Proof. intros w a w' _. exact I. Qed.

Lemma emits_get_next_task_file : emits P (get_next_task_file E).
Proof.
  apply emits_nothing. intros w.
  now destruct (get_next_task_file_pure E w) as (next & ->).
Qed.

Lemma emits_read_task task_path : emits P (read_task task_path).
Proof.
  apply emits_nothing. intros w. unfold read_task.
  now destruct (listing (files w) (parent task_path) !! name task_path) as [[text|]|].
Qed.

Lemma emits_run_codex prompt : emits P (run_codex E prompt).
Proof.
  intros w. eexists [_]. split; [reflexivity|]. repeat constructor.
  now apply Pquiet.
Qed.

Lemma emits_build_project : emits P (build_project E).
Proof.
  intros w. unfold emits_at, build_project.
  destruct (build_process E (build_calls w)) as [[code out] err].
  eexists [_]. split; [reflexivity|]. repeat constructor. now apply Pquiet.
Qed.

Lemma emits_build_fix_loop attempts : emits P (build_fix_loop E attempts).
Proof.
  induction attempts as [|attempt rest IH]; simpl; [apply emits_ret|].
  apply (emits_bind _ _ (fun _ => True));
    [apply emits_build_project | apply returns_any |].
  intros [code output] _. destruct (code =? 0); [apply emits_ret|].
  apply (emits_bind _ _ (fun _ => True));
    [apply emits_run_codex | apply returns_any |].
  intros fix_success _. destruct (negb fix_success); [apply emits_ret|].
  apply (emits_bind _ _ (fun _ => True));
    [apply emits_sleep | apply returns_any | intros _ _; exact IH].
Qed.

Lemma emits_move_task src d :
  P (EvRename src (Path d (name src))) -> emits P (move_task E src d).
Proof.
  intros HP w. unfold emits_at, move_task, bind, rename.
  destruct (listing (files w) (parent src) !! name src) as [f|].
  2:{ exists []. simpl. rewrite app_nil_r. split; [reflexivity | constructor]. }
  destruct (bool_decide _ && negb (rename_replaces E)).
  { exists []. simpl. rewrite app_nil_r. split; [reflexivity | constructor]. }
  eexists [_]. split; [reflexivity|]. repeat constructor. exact HP.
Qed.

Lemma returns_move_task src d :
  returns (move_task E src d) (fun moved => moved = Path d (name src)).
Proof.
  intros w moved w' Hmove.
  now destruct (move_task_keeps_name E src d w moved w' Hmove) as (-> & _).
Qed.

(** One pass logs only events that satisfy [P], as soon as the three
    renames of the task it picks do. *)
Lemma emits_iteration w :
  (forall p, get_next_task_file E w = (Ok (Some p), w) ->
     P (EvRename p (Path IN_PROGRESS_DIR (name p)))
     /\ P (EvRename (Path IN_PROGRESS_DIR (name p)) (Path DONE_DIR (name p)))
     /\ P (EvRename (Path IN_PROGRESS_DIR (name p)) (Path FAILED_DIR (name p)))) ->
  emits_at P (iteration E) w.
Proof.
  intros Hpick. unfold iteration.
  destruct (get_next_task_file_pure E w) as (next & Hnext).
  unfold emits_at, bind at 1. rewrite Hnext.
  destruct next as [p|]; [|apply emits_sleep].
  destruct (Hpick p Hnext) as (Hin & Hdone & Hfailed).
  apply (emits_at_bind _ _ (fun moved => moved = Path IN_PROGRESS_DIR (name p)));
    [now apply emits_move_task | apply returns_move_task |].
  intros moved ->.
  apply (emits_bind _ _ (fun _ => True));
    [apply emits_read_task | apply returns_any |].
  intros task_content _.
  apply (emits_bind _ _ (fun _ => True));
    [apply emits_run_codex | apply returns_any |].
  intros success _. destruct (negb success).
  - apply (emits_bind _ _ (fun _ => True));
      [now apply emits_move_task | apply returns_any | intros _ _; apply emits_ret].
  - apply (emits_bind _ _ (fun _ => True));
      [apply emits_build_fix_loop | apply returns_any |].
    intros build_success _.
    apply (emits_bind _ _ (fun _ => True));
      [|apply returns_any | intros _ _; apply emits_sleep].
    destruct build_success; now apply emits_move_task.
Qed.

End Emits.

(** ** The task lifecycle *)

Lemma lifecycle_quiet E e : quiet e -> lifecycle E e.
Proof. destruct e; simpl; tauto. Qed.

Lemma about_quiet nm e : quiet e -> about nm e.
Proof. destruct e; simpl; tauto. Qed.

Lemma main_loop_while_true E fuel w :
  Worker.main_loop E fuel w = Worker.while_true E fuel w.
Proof. reflexivity. Qed.

Lemma lawful_iteration E : emits (lifecycle E) (Worker.iteration E).
Proof.
  intros w. apply emits_iteration; [apply lifecycle_quiet|].
  intros p Hnext. destruct (get_next_task_file_some E w p Hnext) as (Hp & _ & Htask & _).
  simpl. repeat split; auto.
Qed.

Lemma lawful_while_true E fuel : emits (lifecycle E) (Worker.while_true E fuel).
Proof.
  induction fuel as [|fuel IH]; simpl.
  - apply emits_ret.
  - apply (emits_bind _ _ _ (fun _ => True));
      [apply lawful_iteration | apply returns_any | intros _ _; exact IH].
Qed.

(** The store after a run is the replay of the renames in its events. *)
Lemma run_replays {A} (m : M A) (P : event -> Prop) w :
  steady m -> emits_at P m w ->
  exists evs, trace (m w).2 = (trace w ++ evs)%list
              /\ files (m w).2 = replay (files w) evs
              /\ Forall P evs.
Proof.
  intros Hsteady (evs' & Ht' & HP).
  destruct (Hsteady w) as (evs & Ht & Hf & _).
  assert (evs = evs') by (rewrite Ht in Ht'; now apply app_inv_head in Ht').
  subst evs'. now exists evs.
Qed.

Section Replay.

Import Worker.

Variable E : environment.

Lemma apply_rename_missing src dst st :
  listing st (parent src) !! name src = None ->
  apply_event st (EvRename src dst) = st.
Proof. intros H. cbn [apply_event]. unfold rename_file. now rewrite H. Qed.

(** A lifecycle event takes nothing out of [done] or [failed]. *)
Lemma lifecycle_keeps_archive e st d n :
  lifecycle E e -> d = DONE_DIR \/ d = FAILED_DIR ->
  holds st d n -> holds (apply_event st e) d n.
Proof.
  intros He Hd Hn. destruct e as [src dst| | |]; try exact Hn.
  destruct (listing st (parent src) !! name src) as [f|] eqn:Hsrc.
  2:{ now rewrite apply_rename_missing. }
  cbn [apply_event]. apply (holds_rename_file _ _ _ f); [exact Hsrc|].
  right. split; [|exact Hn]. intros [-> _]. simpl in He.
  destruct He as (_ & [(Hp & _)|(Hp & _)]); destruct Hd; congruence.
Qed.

(** A lifecycle event puts nothing into [pending] and changes no file
    there. *)
Lemma lifecycle_pending_shrinks e st n f :
  lifecycle E e ->
  listing (apply_event st e) PENDING_DIR !! n = Some f ->
  listing st PENDING_DIR !! n = Some f.
Proof.
  intros He. destruct e as [src dst| | |]; try (intros H; exact H).
  destruct (listing st (parent src) !! name src) as [f0|] eqn:Hsrc.
  2:{ now rewrite apply_rename_missing. }
  cbn [apply_event]. rewrite (lookup_rename_file _ _ _ f0) by exact Hsrc.
  simpl in He. destruct He as (_ & Hmove).
  rewrite decide_False.
  2:{ intros [Hd _]. destruct Hmove as [(_ & Hp & _)|(_ & [Hp|Hp])]; congruence. }
  case_decide; [discriminate | tauto].
Qed.

(** A lifecycle event leaves alone what is not a task file in [pending]. *)
Lemma lifecycle_keeps_stray e st n :
  lifecycle E e -> ~ is_task_name E n ->
  listing (apply_event st e) PENDING_DIR !! n = listing st PENDING_DIR !! n.
Proof.
  intros He Hn. destruct e as [src dst| | |]; try reflexivity.
  destruct (listing st (parent src) !! name src) as [f0|] eqn:Hsrc.
  2:{ now rewrite apply_rename_missing. }
  cbn [apply_event]. rewrite (lookup_rename_file _ _ _ f0) by exact Hsrc.
  simpl in He. destruct He as (_ & Hmove).
  rewrite decide_False.
  2:{ intros [Hd _]. destruct Hmove as [(_ & Hp & _)|(_ & [Hp|Hp])]; congruence. }
  rewrite decide_False; [reflexivity|].
  intros [Hd ->]. destruct Hmove as [(_ & _ & Htask)|(Hp & _)];
    [contradiction | congruence].
Qed.

(** A rename of [nm] leaves every other name where it is. *)
Lemma about_keeps_others nm e st d n :
  about nm e -> n <> nm ->
  listing (apply_event st e) d !! n = listing st d !! n.
Proof.
  intros He Hn. destruct e as [src dst| | |]; try reflexivity.
  destruct (listing st (parent src) !! name src) as [f0|] eqn:Hsrc.
  2:{ now rewrite apply_rename_missing. }
  cbn [apply_event]. rewrite (lookup_rename_file _ _ _ f0) by exact Hsrc.
  simpl in He. destruct He as (Hs & Hd).
  rewrite decide_False by (intros [_ ?]; congruence).
  now rewrite decide_False by (intros [_ ?]; congruence).
Qed.

Lemma replay_cons st e evs : replay st (e :: evs) = replay (apply_event st e) evs.
Proof. reflexivity. Qed.

Lemma replay_keeps_archive evs st d n :
  Forall (lifecycle E) evs -> d = DONE_DIR \/ d = FAILED_DIR ->
  holds st d n -> holds (replay st evs) d n.
Proof.
  intros Hevs Hd. revert st.
  induction Hevs as [|e evs He _ IH]; intros st Hn; [exact Hn|].
  rewrite replay_cons. apply IH. now apply lifecycle_keeps_archive.
Qed.

Lemma replay_pending_shrinks evs st n f :
  Forall (lifecycle E) evs ->
  listing (replay st evs) PENDING_DIR !! n = Some f ->
  listing st PENDING_DIR !! n = Some f.
Proof.
  intros Hevs. revert st.
  induction Hevs as [|e evs He _ IH]; intros st Hn; [exact Hn|].
  rewrite replay_cons in Hn. apply IH in Hn.
  now apply (lifecycle_pending_shrinks e).
Qed.

Lemma replay_keeps_stray evs st n :
  Forall (lifecycle E) evs -> ~ is_task_name E n ->
  listing (replay st evs) PENDING_DIR !! n = listing st PENDING_DIR !! n.
Proof.
  intros Hevs Hn. revert st.
  induction Hevs as [|e evs He _ IH]; intros st; [reflexivity|].
  rewrite replay_cons, IH. now apply lifecycle_keeps_stray.
Qed.

Lemma replay_keeps_others nm evs st d n :
  Forall (about nm) evs -> n <> nm ->
  listing (replay st evs) d !! n = listing st d !! n.
Proof.
  intros Hevs Hn. revert st.
  induction Hevs as [|e evs He _ IH]; intros st; [reflexivity|].
  rewrite replay_cons, IH. now apply (about_keeps_others nm).
Qed.

End Replay.

Lemma main_loop_lifecycle (E : environment) (fuel : nat) (w : world) :
  exists evs,
    trace (Worker.main_loop E fuel w).2 = (trace w ++ evs)%list
    /\ files (Worker.main_loop E fuel w).2 = replay (files w) evs
    /\ Forall (lifecycle E) evs.
Proof.
  apply run_replays; [apply steady_main_loop|].
  exact (lawful_while_true E fuel w).
Qed.

(** X1. Whatever the agent and the build answer and whatever the store
    holds, the only changes a run of the loop makes to the store are
    renames along the task lifecycle: a task file (a name that the
    platform's case rule matches against [*.md]) from [pending] to
    [in_progress], a file from [in_progress] to [done] or to [failed], each
    under its own name; the store it leaves is the replay of those renames. *)
Theorem worker_moves_follow_the_lifecycle (E : environment) (fuel : nat) (w : world) :
  exists evs,
    trace (Worker.main_loop E fuel w).2 = (trace w ++ evs)%list
    /\ files (Worker.main_loop E fuel w).2 = replay (files w) evs
    /\ Forall (lifecycle E) evs.
Proof. apply main_loop_lifecycle. Qed.

(** X2. [done] and [failed] are archives: a name that is in one of them
    is still in it after any run of the loop, however it ends. *)
Theorem archives_are_permanent (E : environment) (fuel : nat) (w : world)
    (d : queue_dir) (n : string) :
  d = DONE_DIR \/ d = FAILED_DIR ->
  holds (files w) d n ->
  holds (files (Worker.main_loop E fuel w).2) d n.
Proof.
  intros Hd Hn.
  destruct (main_loop_lifecycle E fuel w) as (evs & _ & -> & Hl).
  now apply (replay_keeps_archive E).
Qed.

Lemma archives_are_permanent_witness :
  holds (files (Worker.main_loop (Examples.env Cases.agent_flaky (Examples.build_fails_first 1))
                  6 (Examples.start Cases.backlog)).2) DONE_DIR "setup.md".
Proof.
  apply archives_are_permanent; [now left|].
  exists (Utf8 "Create the project"). vm_compute. reflexivity.
Defined.

(** X3. The worker never puts a file into [pending] and never changes one
    there: every file in [pending] after a run was there before it with the
    same contents.  What it takes out of [pending] are task files only: a
    file whose name, folded as the platform folds case, does not end in
    [.md] is there after the run exactly as it was before. *)
Theorem pending_only_loses_task_files (E : environment) (fuel : nat) (w : world) :
  let w' := (Worker.main_loop E fuel w).2 in
  (forall n f, listing (files w') PENDING_DIR !! n = Some f ->
               listing (files w) PENDING_DIR !! n = Some f)
  /\ (forall n, ~ is_task_name E n ->
                listing (files w') PENDING_DIR !! n
                = listing (files w) PENDING_DIR !! n).
Proof.
  intros w'. subst w'.
  destruct (main_loop_lifecycle E fuel w) as (evs & _ & -> & Hl).
  split.
  - intros n f. now apply (replay_pending_shrinks E).
  - intros n Hn. now apply (replay_keeps_stray E).
Qed.

(** ** One pass touches one task *)

Lemma frame_iteration E w :
  (Worker.get_next_task_file E w = (Ok None, w) ->
   files (Worker.iteration E w).2 = files w)
  /\ (forall p, Worker.get_next_task_file E w = (Ok (Some p), w) ->
      forall d n, n <> name p ->
        listing (files (Worker.iteration E w).2) d !! n = listing (files w) d !! n).
Proof.
  split.
  - intros Hnone. now rewrite (idle_iteration E w Hnone).
  - intros p Hnext d n Hn.
    destruct (run_replays (Worker.iteration E) (about (name p)) w)
      as (evs & _ & -> & Habout).
    + apply steady_iteration.
    + apply emits_iteration; [apply about_quiet|].
      intros q Hq. rewrite Hnext in Hq. injection Hq as <-.
      simpl. repeat split.
    + now apply (replay_keeps_others (name p)).
Qed.

(** X4. A pass touches only the task it picks: with nothing to pick it
    leaves the store as it is, and otherwise every file with another name,
    in any of the four directories, is after the pass where and what it was
    before, whether the pass ends normally or with an exception. *)
Theorem pass_touches_only_its_task (E : environment) (w : world) :
  (Worker.get_next_task_file E w = (Ok None, w) ->
   files (Worker.iteration E w).2 = files w)
  /\ (forall p, Worker.get_next_task_file E w = (Ok (Some p), w) ->
      forall d n, n <> name p ->
        listing (files (Worker.iteration E w).2) d !! n = listing (files w) d !! n).
Proof. apply frame_iteration. Qed.

(** A task that sits in [in_progress] with no file of its name in
    [pending]: a pass leaves it there. *)
Lemma stranded_after_iteration E w n f :
  listing (files w) IN_PROGRESS_DIR !! n = Some f ->
  ~ holds (files w) PENDING_DIR n ->
  listing (files (Worker.iteration E w).2) IN_PROGRESS_DIR !! n = Some f
  /\ ~ holds (files (Worker.iteration E w).2) PENDING_DIR n.
Proof.
  intros Hin Hpend.
  destruct (frame_iteration E w) as (Hidle & Hframe).
  destruct (get_next_task_file_pure E w) as ([p|] & Hnext).
  - assert (Hn : n <> name p).
    { intros ->. apply Hpend. now apply get_next_task_file_some in Hnext. }
    unfold holds. rewrite !(Hframe p Hnext _ n Hn). now split.
  - rewrite (Hidle Hnext). now split.
Qed.

Lemma stranded_after_while_true E fuel w n f :
  listing (files w) IN_PROGRESS_DIR !! n = Some f ->
  ~ holds (files w) PENDING_DIR n ->
  listing (files (Worker.while_true E fuel w).2) IN_PROGRESS_DIR !! n = Some f
  /\ ~ holds (files (Worker.while_true E fuel w).2) PENDING_DIR n.
Proof.
  revert w. induction fuel as [|fuel IH]; intros w Hin Hpend; [now split|].
  destruct (stranded_after_iteration E w n f Hin Hpend) as (Hin1 & Hpend1).
  simpl. unfold bind.
  destruct (Worker.iteration E w) as [[[]|e] w1]; simpl in *.
  - now apply IH.
  - now split.
Qed.

(** X5. A task left in [in_progress], by a run that an exception ended,
    is never resumed: as long as no file of its name is in [pending], it is
    in [in_progress] with the same contents after any further run of the
    loop. *)
Theorem stranded_task_is_never_resumed (E : environment) (fuel : nat) (w : world)
    (n : string) (f : file_data) :
  listing (files w) IN_PROGRESS_DIR !! n = Some f ->
  ~ holds (files w) PENDING_DIR n ->
  listing (files (Worker.main_loop E fuel w).2) IN_PROGRESS_DIR !! n = Some f
  /\ ~ holds (files (Worker.main_loop E fuel w).2) PENDING_DIR n.
Proof.
  intros Hin Hpend. rewrite main_loop_while_true.
  now apply stranded_after_while_true.
Qed.

Lemma stranded_task_is_never_resumed_witness :
  listing (files (Worker.main_loop
                    (Examples.env Cases.agent_flaky (Examples.build_fails_first 1))
                    6 (Examples.start Cases.backlog)).2)
    IN_PROGRESS_DIR !! "00-crashed.md"
  = Some (Utf8 "Migrate the database").
Proof.
  refine (proj1 (stranded_task_is_never_resumed _ 6 (Examples.start Cases.backlog)
                   "00-crashed.md" (Utf8 "Migrate the database") _ _)).
  - vm_compute. reflexivity.
  - intros [x Hx]. vm_compute in Hx. discriminate.
Defined.


(** ** The effect of a pass that ends normally *)

Section NormalPass.

Variables (E : environment) (w : world) (p : path) (content : string).

Hypothesis Hnext : Worker.get_next_task_file E w = (Ok (Some p), w).
Hypothesis Hread : listing (files w) PENDING_DIR !! name p = Some (Utf8 content).
Hypothesis Huniq : unique_names (files w).




End NormalPass.



(** ** The order of the picks *)





(** ** Working through the queue *)









(** ** What of the build output reaches the agent *)

Lemma str_drop_app_ge a b k :
  PyStr.drop (PyStr.length a + k) (a ++ b) = PyStr.drop k b.
Proof. induction a as [|c a IH]; simpl; [reflexivity | exact IH]. Qed.

Lemma str_drop_app_le a b k :
  (k <= PyStr.length a)%nat -> PyStr.drop k (a ++ b) = PyStr.drop k a ++ b.
Proof.
  revert k. induction a as [|c a IH]; intros [|k] Hk; simpl; try reflexivity.
  - unfold PyStr.length in Hk. simpl in Hk. lia.
  - apply IH. unfold PyStr.length in *. simpl in Hk. lia.
Qed.

(** X10. [build_project] hands back standard output followed by standard
    error, and the fix prompt keeps the end of that text.  So when standard
    error has 1000 characters or more, the fix prompt is the one that
    standard error alone would give: nothing of standard output reaches the
    agent.  When it has fewer, all of standard error is kept, after the last
    [1000 - length stderr] characters of standard output. *)
Theorem fix_prompt_prefers_stderr (E : environment) (w : world)
    (code : Z) (stdout stderr : string) :
  build_process E (build_calls w) = (code, stdout, stderr) ->
  (Worker.build_project E w).1 = Ok (code, stdout ++ stderr)
  /\ ((1000 <= PyStr.length stderr)%nat ->
      Worker.trimmed_log (stdout ++ stderr) = Worker.trimmed_log stderr
      /\ Worker.fix_prompt (stdout ++ stderr) = Worker.fix_prompt stderr)
  /\ ((PyStr.length stderr <= 1000)%nat ->
      Worker.trimmed_log (stdout ++ stderr)
      = PyStr.drop (PyStr.length stdout - (1000 - PyStr.length stderr)) stdout
        ++ stderr).
Proof.
  intros Hbuild. split; [unfold Worker.build_project; now rewrite Hbuild|].
  split.
  - intros Hlong.
    assert (Htrim : Worker.trimmed_log (stdout ++ stderr) = Worker.trimmed_log stderr).
    { rewrite !trimmed_log_drop, str_length_app.
      replace (PyStr.length stdout + PyStr.length stderr - 1000)%nat
        with (PyStr.length stdout + (PyStr.length stderr - 1000))%nat by lia.
      apply str_drop_app_ge. }
    split; [exact Htrim|]. unfold Worker.fix_prompt. now rewrite Htrim.
  - intros Hshort. rewrite trimmed_log_drop, str_length_app.
    replace (PyStr.length stdout + PyStr.length stderr - 1000)%nat
      with (PyStr.length stdout - (1000 - PyStr.length stderr))%nat by lia.
    apply str_drop_app_le. lia.
Qed.

Lemma fix_prompt_prefers_stderr_witness :
  let E := Examples.env Examples.agent_ok Cases.noisy_build in
  let stderr := (Cases.noisy_build 0).2 in
  Worker.fix_prompt ((Cases.noisy_build 0).1.2 ++ stderr) = Worker.fix_prompt stderr.
Proof.
  intros E stderr.
  destruct (fix_prompt_prefers_stderr E (Examples.start Examples.queue)
              1 (Cases.noisy_build 0).1.2 stderr eq_refl) as (_ & Hlong & _).
  apply Hlong. vm_compute. lia.
Defined.

(** ** The QA report on any checklist *)

Lemma run_from_cases output_text state w :
  QA.run_from output_text QA.recursion_limit QA.entry_point state w
  = match QA.release_qa w with
    | None =>
        (Ok {| QA.qa_text := QA.sentinel;
               QA.report := output_text (QA.analysis_prompt QA.sentinel) |},
         QA.QAWorld None
           (QA.Present (Some (output_text (QA.analysis_prompt QA.sentinel))))
           (QA.requests w ++ [QA.analysis_prompt QA.sentinel]))
    | Some (Utf8 text) =>
        (Ok {| QA.qa_text := text;
               QA.report := output_text (QA.analysis_prompt text) |},
         QA.QAWorld (Some (Utf8 text))
           (QA.Present (Some (output_text (QA.analysis_prompt text))))
           (QA.requests w ++ [QA.analysis_prompt text]))
    | Some Garbled => (Raise UnicodeDecodeError, w)
    end.
Proof.
  unfold QA.recursion_limit, QA.entry_point.
  cbn [QA.run_from QA.assoc QA.graph_nodes QA.graph_edges QA.END String.eqb
       Ascii.eqb Bool.eqb].
  unfold bind, QA.read_qa.
  destruct (QA.release_qa w) as [[text|]|] eqn:Hfile; try reflexivity;
    unfold QA.analyze_qa, QA.save_report, ret;
    cbn [QA.qa_text QA.report QA.release_qa QA.qa_output QA.requests];
    now rewrite Hfile.
Qed.

(** X11. With a readable checklist the report is made from it: the file's
    text is sent, inside the analysis prompt, in the one request of the run,
    and the model's answer to that prompt is what the report file holds
    afterwards, replacing whatever it held.  The checklist file itself is
    left as it was. *)
Theorem checklist_text_reaches_the_report (output_text : string -> string)
    (w : QA.qa_world) (text : string) :
  QA.release_qa w = Some (Utf8 text) ->
  let answer := output_text (QA.analysis_prompt text) in
  let w' := (QA.invoke output_text w).2 in
  (QA.invoke output_text w).1 = Ok {| QA.qa_text := text; QA.report := answer |}
  /\ QA.requests w' = (QA.requests w ++ [QA.analysis_prompt text])%list
  /\ QA.qa_output w' = QA.Present (Some answer)
  /\ QA.release_qa w' = QA.release_qa w.
Proof.
  intros Hfile answer w'. subst w' answer. unfold QA.invoke.
  rewrite run_from_cases, Hfile. repeat split.
Qed.

Lemma checklist_text_reaches_the_report_witness :
  QA.qa_output (QA.invoke Cases.echo_model Cases.checklist_there).2
  = QA.Present (Some ("REPORT FOR: "
                        ++ QA.analysis_prompt "Crash-free on rotation: YES")).
Proof.
  now destruct (checklist_text_reaches_the_report Cases.echo_model
                  Cases.checklist_there "Crash-free on rotation: YES" eq_refl)
    as (_ & _ & Hfile & _).
Defined.

(** X12. A checklist file that is there but cannot be decoded is not
    replaced by the sentinel: the run raises [UnicodeDecodeError] before
    anything is sent to the model, and the output directory and an earlier
    report are left as they were. *)
Theorem unreadable_checklist_stops_the_run (output_text : string -> string)
    (w : QA.qa_world) :
  QA.release_qa w = Some Garbled ->
  QA.invoke output_text w = (Raise UnicodeDecodeError, w).
Proof.
  intros Hfile. unfold QA.invoke. now rewrite run_from_cases, Hfile.
Qed.

Lemma unreadable_checklist_stops_the_run_witness :
  QA.invoke Cases.echo_model Cases.checklist_garbled
  = (Raise UnicodeDecodeError, Cases.checklist_garbled).
Proof. now apply unreadable_checklist_stops_the_run. Defined.

(** X13. Nothing of the state the graph is started with reaches the
    outcome: both of its keys are overwritten on the way, so a run from any
    state returns the state and leaves the files that the run from the empty
    initial state does. *)
Theorem initial_state_is_overwritten (output_text : string -> string)
    (state : QA.QAState) (w : QA.qa_world) :
  QA.run_from output_text QA.recursion_limit QA.entry_point state w
  = QA.invoke output_text w.
Proof. unfold QA.invoke. now rewrite !run_from_cases. Qed.

(** X14. Running the report generator again changes no file: the second
    run ends as the first did, returns the same state and leaves the
    checklist and the report as the first run left them; it only sends its
    request once more. *)
Theorem second_report_run_changes_no_file (output_text : string -> string)
    (w : QA.qa_world) :
  let w1 := (QA.invoke output_text w).2 in
  let w2 := (QA.invoke output_text w1).2 in
  (QA.invoke output_text w1).1 = (QA.invoke output_text w).1
  /\ QA.release_qa w2 = QA.release_qa w1
  /\ QA.qa_output w2 = QA.qa_output w1
  /\ QA.release_qa w1 = QA.release_qa w.
Proof.
  intros w1 w2. subst w2 w1. unfold QA.invoke. rewrite (run_from_cases _ _ w).
  destruct (QA.release_qa w) as [[text|]|] eqn:Hfile; cbn [snd].
  - rewrite run_from_cases. cbn [QA.release_qa fst snd]. repeat split.
  - rewrite run_from_cases, Hfile. cbn [fst snd]. repeat split. exact Hfile.
  - rewrite run_from_cases. cbn [QA.release_qa fst snd]. repeat split.
Qed.

(** ** Exceptions in the worker *)





(** ** The first passing build *)


